(** * MicroTBX, Linux port: the critical section of [port/LINUX/tbxport.c]

    The port maps the interrupt disable/restore contract of the toolbox onto
    one pthread mutex and two [static volatile uint8_t] flags.  The two
    functions are embedded as programs over the operations they perform on
    that shared state (loads and stores of the flags, the three mutex calls,
    the assertion), so that one definition serves

    - the sequential reading: a call runs to its end on a state ([run]),
      with the log of every operation and of the state it leaves ([log]);
    - the concurrent reading: threads take turns, one operation at a time
      ([thread_step], [exec]). *)

From Stdlib Require Import ZArith List Bool Lia PeanoNat.
Import ListNotations.
Local Open Scope Z_scope.

(** ** Data *)

(** Thread identifiers. *)
Definition tid := nat.

(** [tTbxPortCpuSR] is an integer type of [microtbx.h]; only the value 0 of
    it ever occurs in this port. *)
Definition tTbxPortCpuSR := Z.

(** Modelled from the spec: [TBX_FALSE] and [TBX_TRUE] are constants of
    [microtbx.h], which is not among the sources.  The spec reads the two
    flags as booleans, false and true; they are kept here as the C values 0
    and 1 that a [uint8_t] flag holds. *)
Definition TBX_FALSE : Z := 0.
Definition TBX_TRUE : Z := 1.

(** The [pthread_mutex_t] object [mtxCritSect]: not yet initialised (static
    storage), free, or held by a thread. *)
Inductive mutex : Type :=
| MtxUninit
| MtxFree
| MtxHeld (owner : tid).

(** The variables with static storage.  [sharedCounter] is not a variable of
    the port: it is the counter of the callers in the mutual-exclusion
    scenario, which lives in the same shared memory. *)
Inductive var : Type :=
| criticalSectionInitialized
| interruptsDisabled
| sharedCounter.

Record state : Type := mkState {
  initializedFlag : Z;   (* criticalSectionInitialized *)
  heldFlag : Z;          (* interruptsDisabled *)
  mtxCritSect : mutex;
  counter : Z
}.

(** State at program start: both flags are initialised to [TBX_FALSE], the
    mutex object is zeroed static storage. *)
Definition initial : state := mkState TBX_FALSE TBX_FALSE MtxUninit 0.

Definition load (v : var) (s : state) : Z :=
  match v with
  | criticalSectionInitialized => initializedFlag s
  | interruptsDisabled => heldFlag s
  | sharedCounter => counter s
  end.

Definition store (v : var) (x : Z) (s : state) : state :=
  match v with
  | criticalSectionInitialized => mkState x (heldFlag s) (mtxCritSect s) (counter s)
  | interruptsDisabled => mkState (initializedFlag s) x (mtxCritSect s) (counter s)
  | sharedCounter => mkState (initializedFlag s) (heldFlag s) (mtxCritSect s) x
  end.

Definition set_mutex (m : mutex) (s : state) : state :=
  mkState (initializedFlag s) (heldFlag s) m (counter s).

(** ** Programs *)

(** A program is the tree of the operations it performs on the shared state.
    [Region b] is a ghost operation of the callers: it marks that the thread
    enters ([true]) or leaves ([false]) its protected region and touches no
    memory. *)
Inductive prog (A : Type) : Type :=
| Ret (a : A)
| Load (v : var) (k : Z -> prog A)
| Store (v : var) (x : Z) (k : prog A)
| MutexInit (k : prog A)
| MutexLock (k : prog A)
| MutexUnlock (k : prog A)
| Assert (cond : var) (expected : Z) (k : prog A)
| Region (b : bool) (k : prog A).

Arguments Ret {A} a.
Arguments Load {A} v k.
Arguments Store {A} v x k.
Arguments MutexInit {A} k.
Arguments MutexLock {A} k.
Arguments MutexUnlock {A} k.
Arguments Assert {A} cond expected k.
Arguments Region {A} b k.

Fixpoint bind {A B : Type} (p : prog A) (f : A -> prog B) : prog B :=
  match p with
  | Ret a => f a
  | Load v k => Load v (fun x => bind (k x) f)
  | Store v x k => Store v x (bind k f)
  | MutexInit k => MutexInit (bind k f)
  | MutexLock k => MutexLock (bind k f)
  | MutexUnlock k => MutexUnlock (bind k f)
  | Assert c e k => Assert c e (bind k f)
  | Region b k => Region b (bind k f)
  end.

Declare Scope prog_scope.
Delimit Scope prog_scope with prog.
Notation "x <- p ;; q" := (bind p (fun x => q))
  (at level 61, p at next level, right associativity) : prog_scope.
Notation "p ;; q" := (bind p (fun _ => q))
  (at level 61, right associativity) : prog_scope.
Local Open Scope prog_scope.

Definition ret {A : Type} (a : A) : prog A := Ret a.
Definition read (v : var) : prog Z := Load v (fun x => Ret x).
Definition write (v : var) (x : Z) : prog unit := Store v x (Ret tt).
Definition pthread_mutex_init : prog unit := MutexInit (Ret tt).
Definition pthread_mutex_lock : prog unit := MutexLock (Ret tt).
Definition pthread_mutex_unlock : prog unit := MutexUnlock (Ret tt).
(** [TBX_ASSERT (v == expected)]: the condition reads the volatile [v]. *)
Definition TBX_ASSERT (v : var) (expected : Z) : prog unit := Assert v expected (Ret tt).
Definition region (b : bool) : prog unit := Region b (Ret tt).

(** ** The two functions of the port *)

(** [tTbxPortCpuSR TbxPortInterruptsDisable(void)] *)
Definition TbxPortInterruptsDisable : prog tTbxPortCpuSR :=
  let result := 0 in
  (* Make sure the critical section object is initialized. *)
  initialized <- read criticalSectionInitialized ;;
  (if initialized =? TBX_FALSE then
     pthread_mutex_init ;;
     write criticalSectionInitialized TBX_TRUE
   else ret tt) ;;
  (* Enter the critical section, if not already entered. *)
  disabled <- read interruptsDisabled ;;
  (if disabled =? TBX_FALSE then
     write interruptsDisabled TBX_TRUE ;;
     pthread_mutex_lock
   else ret tt) ;;
  ret result.

(** [void TbxPortInterruptsRestore(tTbxPortCpuSR prev_cpu_sr)] *)
Definition TbxPortInterruptsRestore (prev_cpu_sr : tTbxPortCpuSR) : prog unit :=
  (* TBX_UNUSED_ARG(prev_cpu_sr) *)
  (* Make sure the critical section object was initialized. *)
  TBX_ASSERT criticalSectionInitialized TBX_TRUE ;;
  (* Leave the critical section, if is was entered. *)
  disabled <- read interruptsDisabled ;;
  (if disabled =? TBX_TRUE then
     pthread_mutex_unlock ;;
     write interruptsDisabled TBX_FALSE
   else ret tt) ;;
  ret tt.

(** ** Semantics of the operations *)

(** What an operation leaves in the log. *)
Inductive event : Type :=
| EvLoad (v : var) (x : Z)
| EvStore (v : var) (x : Z)
| EvMutexInit
| EvMutexLock
| EvMutexUnlock
| EvAssertPassed
| EvAssertSkipped
| EvRegion (b : bool).

(** [pthread_mutex_init] with default attributes.  POSIX leaves the
    initialisation of an already initialised mutex undefined ([None]). *)
Definition mutex_init (s : state) : option state :=
  match mtxCritSect s with
  | MtxUninit => Some (set_mutex MtxFree s)
  | _ => None
  end.

Inductive lock_result : Type :=
| Acquired (s : state)
| Busy
| LockUndefined.

(** [pthread_mutex_lock] of thread [t]: the default mutex of Linux is the
    normal kind, a request on a held mutex waits, whoever holds it. *)
Definition mutex_lock (t : tid) (s : state) : lock_result :=
  match mtxCritSect s with
  | MtxFree => Acquired (set_mutex (MtxHeld t) s)
  | MtxHeld _ => Busy
  | MtxUninit => LockUndefined
  end.

(** [pthread_mutex_unlock] of thread [t]: defined only when [t] holds it. *)
Definition mutex_unlock (t : tid) (s : state) : option state :=
  match mtxCritSect s with
  | MtxHeld o => if Nat.eqb o t then Some (set_mutex MtxFree s) else None
  | _ => None
  end.

Section Semantics.

(** [TBX_ASSERT] is a macro of [microtbx.h], which is not among the sources:
    whether the build keeps assertions or compiles them out is a parameter.
    A kept assertion whose condition is false stops the call. *)
Variable assertions_enabled : bool.

Inductive assert_result : Type :=
| AssertOk (e : event)
| AssertViolated.

Definition assertion (v : var) (expected : Z) (s : state) : assert_result :=
  if assertions_enabled then
    if load v s =? expected then AssertOk EvAssertPassed else AssertViolated
  else AssertOk EvAssertSkipped.

(** *** One operation of one thread *)

Inductive step_result (A : Type) : Type :=
| Stepped (e : event) (p : prog A) (s : state)
| Halted (a : A)
| Waits
| AssertionFails
| Undef.

Arguments Stepped {A} e p s.
Arguments Halted {A} a.
Arguments Waits {A}.
Arguments AssertionFails {A}.
Arguments Undef {A}.

Definition step {A : Type} (t : tid) (p : prog A) (s : state) : step_result A :=
  match p with
  | Ret a => Halted a
  | Load v k => Stepped (EvLoad v (load v s)) (k (load v s)) s
  | Store v x k => Stepped (EvStore v x) k (store v x s)
  | MutexInit k =>
      match mutex_init s with
      | Some s' => Stepped EvMutexInit k s'
      | None => Undef
      end
  | MutexLock k =>
      match mutex_lock t s with
      | Acquired s' => Stepped EvMutexLock k s'
      | Busy => Waits
      | LockUndefined => Undef
      end
  | MutexUnlock k =>
      match mutex_unlock t s with
      | Some s' => Stepped EvMutexUnlock k s'
      | None => Undef
      end
  | Assert v x k =>
      match assertion v x s with
      | AssertOk e => Stepped e k s
      | AssertViolated => AssertionFails
      end
  | Region b k => Stepped (EvRegion b) k s
  end.

(** *** A call run to its end by thread [t] *)

Inductive outcome (A : Type) : Type :=
| Returned (a : A) (s : state)
| Blocked (s : state)
| AssertFailed (s : state)
| Undefined.

Arguments Returned {A} a s.
Arguments Blocked {A} s.
Arguments AssertFailed {A} s.
Arguments Undefined {A}.

Fixpoint run {A : Type} (t : tid) (p : prog A) (s : state) : outcome A :=
  match p with
  | Ret a => Returned a s
  | Load v k => run t (k (load v s)) s
  | Store v x k => run t k (store v x s)
  | MutexInit k =>
      match mutex_init s with
      | Some s' => run t k s'
      | None => Undefined
      end
  | MutexLock k =>
      match mutex_lock t s with
      | Acquired s' => run t k s'
      | Busy => Blocked s
      | LockUndefined => Undefined
      end
  | MutexUnlock k =>
      match mutex_unlock t s with
      | Some s' => run t k s'
      | None => Undefined
      end
  | Assert v x k =>
      match assertion v x s with
      | AssertOk _ => run t k s
      | AssertViolated => AssertFailed s
      end
  | Region _ k => run t k s
  end.

(** The operations a call performs, in order, each with the state it
    leaves: the intermediate points of the call. *)
Fixpoint log {A : Type} (t : tid) (p : prog A) (s : state) : list (event * state) :=
  match step t p s with
  | Stepped e _ s' =>
      (e, s') ::
      match p with
      | Ret _ => []
      | Load v k => log t (k (load v s)) s
      | Store _ _ k | MutexInit k | MutexLock k | MutexUnlock k
      | Assert _ _ k | Region _ k => log t k s'
      end
  | _ => []
  end.

Definition events {A : Type} (t : tid) (p : prog A) (s : state) : list event :=
  map fst (log t p s).


End Semantics.

Arguments Stepped {A} e p s.
Arguments Halted {A} a.
Arguments Waits {A}.
Arguments AssertionFails {A}.
Arguments Undef {A}.
Arguments Returned {A} a s.
Arguments Blocked {A} s.
Arguments AssertFailed {A} s.
Arguments Undefined {A}.

(** ** Calls and the states they reach *)

(** The interface of the port: the two calls a caller can make. *)
Inductive call : Type :=
| Disable
| Restore (prev_cpu_sr : tTbxPortCpuSR).

Definition call_prog (c : call) : prog unit :=
  match c with
  | Disable => TbxPortInterruptsDisable ;; ret tt
  | Restore sr => TbxPortInterruptsRestore sr
  end.

(** The three states of the state machine. *)
Definition Uninitialized (n : Z) : state := mkState TBX_FALSE TBX_FALSE MtxUninit n.
Definition Unlocked (n : Z) : state := mkState TBX_TRUE TBX_FALSE MtxFree n.
Definition Locked (t : tid) (n : Z) : state := mkState TBX_TRUE TBX_TRUE (MtxHeld t) n.

Arguments Locked t%_nat n%_Z.

(** The lock is acquired (by whichever thread). *)
Definition lock_acquired (s : state) : bool :=
  match mtxCritSect s with
  | MtxHeld _ => true
  | _ => false
  end.

(** The lock, when it is held, is held by thread [t]. *)
Definition held_by_caller (t : tid) (s : state) : bool :=
  match mtxCritSect s with
  | MtxHeld o => Nat.eqb o t
  | _ => true
  end.

Section Reachability.

Variable assertions_enabled : bool.

(** States reached from the initial state by calls that return, each made
    by some thread and run to its end before the next one starts; between
    calls the callers may write their counter.  Calls of several threads
    that overlap are not of this kind: they are runs of [exec]. *)
Inductive reachable : state -> Prop :=
| reach_initial : reachable initial
| reach_call (t : tid) (c : call) (s s' : state) :
    reachable s ->
    run assertions_enabled t (call_prog c) s = Returned tt s' ->
    reachable s'
| reach_counter (n : Z) (s : state) :
    reachable s ->
    reachable (store sharedCounter n s).

(** The same with one caller: states reached by the calls of thread [t]
    alone. *)
Inductive reachable_by (t : tid) : state -> Prop :=
| own_initial : reachable_by t initial
| own_call (c : call) (s s' : state) :
    reachable_by t s ->
    run assertions_enabled t (call_prog c) s = Returned tt s' ->
    reachable_by t s'
| own_counter (n : Z) (s : state) :
    reachable_by t s ->
    reachable_by t (store sharedCounter n s).

(** The states a sequence of calls goes through, each call with the thread
    that makes it, the start state first; the sequence stops at the first
    call that does not return. *)
Fixpoint history (cs : list (tid * call)) (s : state) : list state :=
  s ::
  match cs with
  | [] => []
  | (t, c) :: cs' =>
      match run assertions_enabled t (call_prog c) s with
      | Returned _ s' => history cs' s'
      | _ => []
      end
  end.

End Reachability.

(** Number of places in a list of states where [criticalSectionInitialized]
    goes from [TBX_FALSE] to [TBX_TRUE], and where it leaves [TBX_TRUE]. *)
Fixpoint rises (l : list state) : nat :=
  match l with
  | s1 :: ((s2 :: _) as l') =>
      let rise := (initializedFlag s1 =? TBX_FALSE) && (initializedFlag s2 =? TBX_TRUE) in
      Nat.add (if rise then 1%nat else 0%nat) (rises l')
  | _ => 0%nat
  end.

Fixpoint falls (l : list state) : nat :=
  match l with
  | s1 :: ((s2 :: _) as l') =>
      let fall := (initializedFlag s1 =? TBX_TRUE) && negb (initializedFlag s2 =? TBX_TRUE) in
      Nat.add (if fall then 1%nat else 0%nat) (falls l')
  | _ => 0%nat
  end.

(** ** Threads taking turns *)

(** A thread: what it has left to run, and whether it is inside its
    protected region (set by the ghost operation [Region]). *)
Record thread : Type := mkThread {
  code : prog unit;
  inside : bool
}.

Record config : Type := mkConfig {
  shared : state;
  threads : list thread
}.

Fixpoint replace {X : Type} (i : nat) (x : X) (l : list X) : list X :=
  match l, i with
  | [], _ => []
  | _ :: l', O => x :: l'
  | y :: l', S i' => y :: replace i' x l'
  end.

Section Interleaving.

Variable assertions_enabled : bool.

(** Thread [i] performs its next operation; [None] when there is no such
    thread, when it has returned, waits for the mutex, fails its assertion
    or calls the mutex outside its contract. *)
Definition thread_step (i : tid) (c : config) : option config :=
  match nth_error (threads c) i with
  | None => None
  | Some th =>
      match step assertions_enabled i (code th) (shared c) with
      | Stepped e p s =>
          let th' := mkThread p (match e with EvRegion b => b | _ => inside th end) in
          Some (mkConfig s (replace i th' (threads c)))
      | _ => None
      end
  end.

(** A schedule names the thread that moves at each turn. *)
Fixpoint exec (sched : list tid) (c : config) : option config :=
  match sched with
  | [] => Some c
  | i :: sched' =>
      match thread_step i c with
      | Some c' => exec sched' c'
      | None => None
      end
  end.

End Interleaving.

Definition start (ps : list (prog unit)) : config :=
  mkConfig initial (map (fun p => mkThread p false) ps).

Definition returned (th : thread) : bool :=
  match code th with
  | Ret _ => true
  | _ => false
  end.

Definition all_returned (c : config) : bool := forallb returned (threads c).

(** Number of threads inside their protected region. *)
Definition inside_count (c : config) : nat :=
  length (filter inside (threads c)).

(** The caller of the scenario: [n] times, disable, increment the shared
    counter (a load and a store), restore with the token of the disable. *)
Fixpoint worker (n : nat) : prog unit :=
  match n with
  | O => ret tt
  | S n' =>
      prev_cpu_sr <- TbxPortInterruptsDisable ;;
      region true ;;
      c <- read sharedCounter ;;
      write sharedCounter (c + 1) ;;
      region false ;;
      TbxPortInterruptsRestore prev_cpu_sr ;;
      worker n'
  end.

(** Two schedules for two workers of one increment each.  In both, thread
    0 runs its disable (six operations), enters its region and loads the
    counter; then thread 1 runs its disable, which finds
    [interruptsDisabled] at [TBX_TRUE] and returns after two loads, and
    enters its region too.  The second schedule goes on to the end of both
    workers. *)
Definition overlap_schedule : list tid :=
  [0; 0; 0; 0; 0; 0; 0; 0; 1; 1; 1]%nat.

Definition lost_update_schedule : list tid :=
  overlap_schedule ++ [1; 0; 0; 1; 1; 0; 0; 0; 0; 1; 1]%nat.

(** The statement of the mutual-exclusion property: whatever the schedule,
    no two threads are inside their regions at once, and when all of [m]
    workers of [n] increments have returned the counter is [n * m]. *)
Definition mutual_exclusion (a : bool) : Prop :=
  forall (m n : nat) (sched : list tid) (c : config),
    exec a sched (start (repeat (worker n) m)) = Some c ->
    (inside_count c <= 1)%nat /\
    (all_returned c = true -> counter (shared c) = Z.of_nat n * Z.of_nat m).

(** A third schedule: both threads load [interruptsDisabled] while it is
    still [TBX_FALSE], so both go for the mutex; thread 1 gets it only
    after the restore of thread 0 has written [TBX_FALSE] to the flag, and
    the restore of thread 1 then leaves the mutex locked. *)
Definition leaked_lock_schedule : list tid :=
  [0; 0; 0; 0; 1; 1; 0; 0; 1; 0; 0; 0; 0; 0; 0; 0; 0; 1; 1; 1; 1; 1; 1; 1]%nat.

(** The three states of the state machine, as a predicate. *)
Inductive machine_state : state -> Prop :=
| ms_uninitialized (n : Z) : machine_state (Uninitialized n)
| ms_unlocked (n : Z) : machine_state (Unlocked n)
| ms_locked (t : tid) (n : Z) : machine_state (Locked t n).

(** ** Callers *)

(** A caller that makes the calls of [cs] one after the other. *)
Fixpoint sequence (cs : list call) : prog unit :=
  match cs with
  | [] => ret tt
  | c :: cs' => call_prog c ;; sequence cs'
  end.

(** Counting the mutex calls in a list of events. *)
Definition is_init (e : event) : bool :=
  match e with EvMutexInit => true | _ => false end.

Definition is_lock (e : event) : bool :=
  match e with EvMutexLock => true | _ => false end.

Definition is_unlock (e : event) : bool :=
  match e with EvMutexUnlock => true | _ => false end.

Definition count (f : event -> bool) (l : list event) : nat :=
  length (filter f l).

(** 1 when the mutex is held, 0 when it is not. *)
Definition held_count (s : state) : nat := if lock_acquired s then 1%nat else 0%nat.

(** A schedule for two threads that both make their first call: both load
    [criticalSectionInitialized] while it is [TBX_FALSE], then thread 0
    runs the rest of its disable. *)
Definition init_race_schedule : list tid :=
  [0; 1; 0; 0; 0; 0; 0]%nat.

(** The threads run one after the other, thread [i] first, each to its
    end before the next one starts: the state they leave, and the schedule
    that makes them do so (as many turns of a thread as it has operations
    to perform). *)
Fixpoint serial (a : bool) (i : tid) (ps : list (prog unit)) (s : state) : outcome unit :=
  match ps with
  | [] => Returned tt s
  | p :: ps' =>
      match run a i p s with
      | Returned _ s' => serial a (S i) ps' s'
      | o => o
      end
  end.

Fixpoint serial_schedule (a : bool) (i : tid) (ps : list (prog unit)) (s : state) : list tid :=
  match ps with
  | [] => []
  | p :: ps' =>
      repeat i (length (log a i p s)) ++
      match run a i p s with
      | Returned _ s' => serial_schedule a (S i) ps' s'
      | _ => []
      end
  end.

(** ** Basic facts *)

Lemma TBX_TRUE_not_FALSE : TBX_TRUE <> TBX_FALSE.
Proof. discriminate. Qed.

(** One operation forward does not change where a call ends: [run] is the
    iteration of [step]. *)
Lemma run_step (a : bool) {A : Type} (t : tid) (p p' : prog A) (s s' : state) (e : event) :
  step a t p s = Stepped e p' s' -> run a t p s = run a t p' s'.
Proof.
  destruct p; simpl; intros H.
  - discriminate.
  - now inversion H.
  - now inversion H.
  - destruct (mutex_init s); [now inversion H | discriminate].
  - destruct (mutex_lock t s); [now inversion H | discriminate | discriminate].
  - destruct (mutex_unlock t s); [now inversion H | discriminate].
  - destruct (assertion a cond expected s); [now inversion H | discriminate].
  - now inversion H.
Qed.

Lemma run_halted (a : bool) {A : Type} (t : tid) (p : prog A) (s : state) (x : A) :
  step a t p s = Halted x -> run a t p s = Returned x s.
Proof.
  destruct p; simpl; intros H; try discriminate.
  - now inversion H.
  - destruct (mutex_init s); discriminate.
  - destruct (mutex_lock t s); discriminate.
  - destruct (mutex_unlock t s); discriminate.
  - destruct (assertion a cond expected s); discriminate.
Qed.

(** Sequencing: the second program starts where the first returned. *)
Lemma run_bind (a : bool) {A B : Type} (t : tid) (p : prog A) (f : A -> prog B) (s : state) :
  run a t (x <- p ;; f x) s =
  match run a t p s with
  | Returned x s' => run a t (f x) s'
  | Blocked s' => Blocked s'
  | AssertFailed s' => AssertFailed s'
  | Undefined => Undefined
  end.
Proof.
  revert s; induction p; intros s; simpl; auto.
  - destruct (mutex_init s); auto.
  - destruct (mutex_lock t s); auto.
  - destruct (mutex_unlock t s); auto.
  - destruct (assertion a cond expected s); auto.
Qed.

(** A reachable state is one of the three states of the state machine. *)
Lemma reachable_machine_state (a : bool) (s : state) :
  reachable a s -> machine_state s.
Proof.
  induction 1 as [ | t c s s' _ IH Hrun | n s _ IH ].
  - exact (ms_uninitialized 0).
  - destruct IH as [n | n | t0 n]; destruct c as [ | sr]; destruct a;
      cbn in Hrun; try discriminate;
      try (inversion Hrun; subst; first [ apply ms_uninitialized | apply ms_unlocked | apply ms_locked ]).
    + destruct (Nat.eqb t0 t); cbn in Hrun; [ | discriminate].
      inversion Hrun; apply ms_unlocked.
    + destruct (Nat.eqb t0 t); cbn in Hrun; [ | discriminate].
      inversion Hrun; apply ms_unlocked.
  - destruct IH; cbn;
      [ apply (ms_uninitialized n) | apply (ms_unlocked n) | apply (ms_locked t n) ].
Qed.

(** Each of the three is reached. *)
Lemma reachable_Uninitialized (a : bool) (n : Z) : reachable a (Uninitialized n).
Proof. exact (reach_counter a n initial (reach_initial a)). Qed.

Lemma reachable_Locked (a : bool) (t : tid) (n : Z) : reachable a (Locked t n).
Proof.
  apply (reach_call a t Disable (Uninitialized n)).
  - apply reachable_Uninitialized.
  - reflexivity.
Qed.

Lemma reachable_Unlocked (a : bool) (n : Z) : reachable a (Unlocked n).
Proof.
  apply (reach_call a 0%nat (Restore 0) (Locked 0%nat n)).
  - apply reachable_Locked.
  - destruct a; reflexivity.
Qed.

(** ** The transitions of the state machine *)




Lemma restore_Locked (a : bool) (t : tid) (sr : tTbxPortCpuSR) (n : Z) :
  run a t (TbxPortInterruptsRestore sr) (Locked t n) = Returned tt (Unlocked n).
Proof. destruct a; cbn; rewrite Nat.eqb_refl; reflexivity. Qed.

Lemma restore_Unlocked (a : bool) (t : tid) (sr : tTbxPortCpuSR) (n : Z) :
  run a t (TbxPortInterruptsRestore sr) (Unlocked n) = Returned tt (Unlocked n).
Proof. destruct a; reflexivity. Qed.

Lemma restore_Uninitialized (a : bool) (t : tid) (sr : tTbxPortCpuSR) (n : Z) :
  run a t (TbxPortInterruptsRestore sr) (Uninitialized n) =
  if a then AssertFailed (Uninitialized n) else Returned tt (Uninitialized n).
Proof. destruct a; reflexivity. Qed.

(** In a machine state where the lock is held by the caller if by anyone,
    the only locked state is the caller's. *)
Lemma held_by_caller_Locked (t t0 : tid) (n : Z) :
  held_by_caller t (Locked t0 n) = true -> t0 = t.
Proof. cbn; apply Nat.eqb_eq. Qed.

(** With one caller, every reachable state meets the side condition: the
    lock is never held by another thread. *)
Lemma reachable_by_held_by_caller (a : bool) (t : tid) (s : state) :
  reachable_by a t s -> reachable a s /\ held_by_caller t s = true.
Proof.
  induction 1 as [ | c s s' _ [IHr IHh] Hrun | n s _ [IHr IHh] ].
  - split; [ apply reach_initial | reflexivity ].
  - split; [ exact (reach_call a t c s s' IHr Hrun) | ].
    apply reachable_machine_state in IHr.
    destruct IHr as [n | n | t0 n]; destruct c as [ | sr]; destruct a;
      cbn in Hrun; try discriminate;
      try (inversion Hrun; subst; cbn; auto using Nat.eqb_refl; fail).
    + destruct (Nat.eqb t0 t); cbn in Hrun; [ | discriminate].
      inversion Hrun; reflexivity.
    + destruct (Nat.eqb t0 t); cbn in Hrun; [ | discriminate].
      inversion Hrun; reflexivity.
  - split; [ exact (reach_counter a n s IHr) | ].
    destruct s; exact IHh.
Qed.

(** ** The claims *)



(** X11. Redundant restore, state by state.  In every state whose
    [criticalSectionInitialized] flag is [TBX_TRUE] and whose
    [interruptsDisabled] flag is [TBX_FALSE], [TbxPortInterruptsRestore]
    returns without a [pthread_mutex_unlock] and leaves the whole state
    (flags, mutex, counter) as it was.  When the mutex is free in that
    state, the next disable acquires it for its caller and the restore
    after it frees it again. *)
Theorem redundant_restore_noop (a : bool) (t : tid) (sr : tTbxPortCpuSR) (s : state) :
  initializedFlag s = TBX_TRUE ->
  heldFlag s = TBX_FALSE ->
  run a t (TbxPortInterruptsRestore sr) s = Returned tt s /\
  ~ In EvMutexUnlock (events a t (TbxPortInterruptsRestore sr) s) /\
  (mtxCritSect s = MtxFree ->
     run a t (TbxPortInterruptsRestore sr ;; TbxPortInterruptsDisable) s
       = Returned 0 (Locked t (counter s)) /\
     run a t (TbxPortInterruptsRestore sr ;;
              sr' <- TbxPortInterruptsDisable ;;
              TbxPortInterruptsRestore sr') s
       = Returned tt s).
Proof.
  destruct s as [i h m n]; cbn; intros -> ->.
  split; [ | split ].
  - destruct a; reflexivity.
  - destruct a; cbn; intros [H | [H | []]]; discriminate.
  - intros ->.
    destruct a; cbn; rewrite Nat.eqb_refl; split; reflexivity.
Qed.

Lemma redundant_restore_noop_witness :
  initializedFlag (Unlocked 5) = TBX_TRUE /\
  heldFlag (Unlocked 5) = TBX_FALSE /\
  mtxCritSect (Unlocked 5) = MtxFree /\
  run true 3%nat (TbxPortInterruptsRestore 0) (Unlocked 5) = Returned tt (Unlocked 5) /\
  run true 3%nat (TbxPortInterruptsRestore 0 ;; TbxPortInterruptsDisable) (Unlocked 5)
    = Returned 0 (Locked 3 5).
Proof.
  split; [ reflexivity | split; [ reflexivity | split; [ reflexivity | ] ] ].
  split.
  - apply (proj1 (redundant_restore_noop true 3%nat 0 (Unlocked 5) eq_refl eq_refl)).
  - apply (proj1 (proj2 (proj2 (redundant_restore_noop true 3%nat 0 (Unlocked 5)
                                   eq_refl eq_refl)) eq_refl)).
Defined.

(** C4, as the code has it.  [TbxPortInterruptsRestore] opens with
    [TBX_ASSERT(criticalSectionInitialized == TBX_TRUE)]: called in the
    uninitialized state, a build that keeps assertions stops the call at
    the failed assertion, before any other operation; only a build that
    compiles assertions out returns, without a mutex call or a store and
    with the state as it was. *)
Theorem restore_uninitialized_asserts (a : bool) (t : tid) (sr : tTbxPortCpuSR) (n : Z) :
  run a t (TbxPortInterruptsRestore sr) (Uninitialized n) =
    (if a then AssertFailed (Uninitialized n) else Returned tt (Uninitialized n)) /\
  events a t (TbxPortInterruptsRestore sr) (Uninitialized n) =
    (if a then [] else [EvAssertSkipped; EvLoad interruptsDisabled TBX_FALSE]).
Proof. destruct a; split; reflexivity. Qed.

(** C4 as stated fails: with assertions kept, a restore in the initial
    state does not return as a no-op, it fails its assertion. *)
Lemma restore_uninitialized_not_silent :
  run true 0%nat (TbxPortInterruptsRestore 0) initial = AssertFailed initial /\
  run true 0%nat (TbxPortInterruptsRestore 0) initial <> Returned tt initial.
Proof. split; [ reflexivity | discriminate ]. Qed.

(** X12. As long as calls do not overlap, that is in every state reached
    from the initial one by calls of any threads that each run to their
    end before the next one starts, [interruptsDisabled] is [TBX_TRUE]
    exactly when the mutex is acquired, and both flags hold [TBX_TRUE] or
    [TBX_FALSE]. *)
Theorem held_flag_iff_lock_acquired (a : bool) (s : state) :
  reachable a s ->
  (heldFlag s = TBX_TRUE <-> lock_acquired s = true) /\
  (heldFlag s = TBX_TRUE \/ heldFlag s = TBX_FALSE) /\
  (initializedFlag s = TBX_TRUE \/ initializedFlag s = TBX_FALSE).
Proof.
  intros Hr; apply reachable_machine_state in Hr.
  destruct Hr; cbn; repeat split; auto; discriminate.
Qed.

Lemma held_flag_iff_lock_acquired_witness :
  reachable false (Locked 2 7) /\
  (heldFlag (Locked 2 7) = TBX_TRUE <-> lock_acquired (Locked 2 7) = true).
Proof.
  assert (Hr : reachable false (Locked 2 7)).
  { apply (reach_call false 2%nat Disable (store sharedCounter 7 initial));
      [ apply reach_counter, reach_initial | reflexivity ]. }
  split; [ exact Hr | ].
  apply (proj1 (held_flag_iff_lock_acquired false (Locked 2 7) Hr)).
Defined.

(** A call that returns takes a machine state to a machine state. *)
Lemma machine_state_call (a : bool) (t : tid) (c : call) (s s' : state) :
  machine_state s ->
  run a t (call_prog c) s = Returned tt s' ->
  machine_state s'.
Proof.
  intros Hs Hrun.
  destruct Hs as [n | n | t0 n]; destruct c as [ | sr]; destruct a;
    cbn in Hrun; try discriminate;
    try (inversion Hrun; subst; first [ apply ms_uninitialized | apply ms_unlocked | apply ms_locked ]).
  - destruct (Nat.eqb t0 t); cbn in Hrun; [ | discriminate].
    inversion Hrun; apply ms_unlocked.
  - destruct (Nat.eqb t0 t); cbn in Hrun; [ | discriminate].
    inversion Hrun; apply ms_unlocked.
Qed.

(** No call writes [criticalSectionInitialized] once it is [TBX_TRUE],
    whatever the rest of the state. *)
Lemma call_keeps_initialized (a : bool) (t : tid) (c : call) (s s' : state) :
  initializedFlag s = TBX_TRUE ->
  run a t (call_prog c) s = Returned tt s' ->
  initializedFlag s' = TBX_TRUE.
Proof.
  destruct s as [i h m n]; cbn; intros ->.
  destruct c as [ | sr]; destruct a; cbn.
  - destruct (h =? TBX_FALSE); cbn; [ destruct m; cbn | ]; intros H; inversion H; reflexivity.
  - destruct (h =? TBX_FALSE); cbn; [ destruct m; cbn | ]; intros H; inversion H; reflexivity.
  - destruct (h =? TBX_TRUE); cbn; [ destruct m as [ | | o]; cbn; try destruct (Nat.eqb o t); cbn | ];
      intros H; inversion H; reflexivity.
  - destruct (h =? TBX_TRUE); cbn; [ destruct m as [ | | o]; cbn; try destruct (Nat.eqb o t); cbn | ];
      intros H; inversion H; reflexivity.
Qed.

Lemma call_no_reinit (a : bool) (t : tid) (c : call) (s : state) (e : event) :
  initializedFlag s = TBX_TRUE ->
  In e (events a t (call_prog c) s) ->
  e <> EvMutexInit /\ forall x, e <> EvStore criticalSectionInitialized x.
Proof.
  destruct s as [i h m n]; cbn; intros ->.
  destruct c as [ | sr]; destruct a; cbn.
  - destruct (h =? TBX_FALSE); cbn; [ destruct m; cbn | ];
      intros H; repeat (destruct H as [H | H]; [ subst e; split; [ | intros x ]; discriminate | ]);
      destruct H.
  - destruct (h =? TBX_FALSE); cbn; [ destruct m; cbn | ];
      intros H; repeat (destruct H as [H | H]; [ subst e; split; [ | intros x ]; discriminate | ]);
      destruct H.
  - destruct (h =? TBX_TRUE); cbn; [ destruct m as [ | | o]; cbn; try destruct (Nat.eqb o t); cbn | ];
      intros H; repeat (destruct H as [H | H]; [ subst e; split; [ | intros x ]; discriminate | ]);
      destruct H.
  - destruct (h =? TBX_TRUE); cbn; [ destruct m as [ | | o]; cbn; try destruct (Nat.eqb o t); cbn | ];
      intros H; repeat (destruct H as [H | H]; [ subst e; split; [ | intros x ]; discriminate | ]);
      destruct H.
Qed.

Lemma machine_state_flag (s : state) :
  machine_state s -> initializedFlag s = TBX_TRUE \/ initializedFlag s = TBX_FALSE.
Proof. destruct 1; cbn; auto. Qed.

Lemma rises_cons (s1 s2 : state) (l : list state) :
  rises (s1 :: s2 :: l) =
  Nat.add (if (initializedFlag s1 =? TBX_FALSE) && (initializedFlag s2 =? TBX_TRUE)
           then 1%nat else 0%nat) (rises (s2 :: l)).
Proof. reflexivity. Qed.

Lemma falls_cons (s1 s2 : state) (l : list state) :
  falls (s1 :: s2 :: l) =
  Nat.add (if (initializedFlag s1 =? TBX_TRUE) && negb (initializedFlag s2 =? TBX_TRUE)
           then 1%nat else 0%nat) (falls (s2 :: l)).
Proof. reflexivity. Qed.

Lemma history_head (a : bool) (cs : list (tid * call)) (s : state) :
  exists l, history a cs s = s :: l.
Proof. destruct cs; cbn; eauto. Qed.

(** Along a sequence of calls the flag never leaves [TBX_TRUE], and rises
    at most once: not at all when it starts at [TBX_TRUE]. *)
Lemma history_monotone (a : bool) (cs : list (tid * call)) :
  forall s, machine_state s ->
    falls (history a cs s) = 0%nat /\
    (rises (history a cs s) <= 1)%nat /\
    (initializedFlag s = TBX_TRUE -> rises (history a cs s) = 0%nat).
Proof.
  induction cs as [ | [t c] cs IH]; intros s Hs.
  - cbn. repeat split; auto.
  - cbn [history].
    destruct (run a t (call_prog c) s) as [[] s' | | | ] eqn:Hrun;
      try (cbn; repeat split; auto; fail).
    pose proof (machine_state_call a t c s s' Hs Hrun) as Hs'.
    destruct (IH s' Hs') as (Hf & Hle & Hz).
    destruct (history_head a cs s') as [l Hl].
    rewrite Hl in *. rewrite rises_cons, falls_cons.
    destruct (machine_state_flag s Hs) as [Hi | Hi].
    + pose proof (call_keeps_initialized a t c s s' Hi Hrun) as Hi'.
      rewrite Hi, Hi', Hf, (Hz Hi'). cbn. repeat split; auto.
    + rewrite Hi, Hf.
      destruct (machine_state_flag s' Hs') as [Hj | Hj]; rewrite Hj.
      * rewrite (Hz Hj). cbn. split; [ reflexivity | split; [ auto | discriminate ] ].
      * split; [ reflexivity | split; [ exact Hle | discriminate ] ].
Qed.

(** X13. [criticalSectionInitialized] is monotone as long as calls do not
    overlap (each runs to its end before the next starts).  (1) From every reachable
    state [TbxPortInterruptsDisable] returns with the flag at [TBX_TRUE].
    (2) Once the flag is [TBX_TRUE], a call that returns leaves it
    [TBX_TRUE], and (3) no call performs [pthread_mutex_init] or writes the
    flag.  (4) Over any sequence of calls from program start the flag never
    leaves [TBX_TRUE] and rises from [TBX_FALSE] to [TBX_TRUE] at most once,
    and (5) exactly once when the first call is a disable. *)
Theorem initialized_flag_monotone (a : bool) :
  (forall t s, reachable a s ->
     exists s', run a t TbxPortInterruptsDisable s = Returned 0 s' /\
                initializedFlag s' = TBX_TRUE) /\
  (forall t c s s', initializedFlag s = TBX_TRUE ->
     run a t (call_prog c) s = Returned tt s' ->
     initializedFlag s' = TBX_TRUE) /\
  (forall t c s, initializedFlag s = TBX_TRUE ->
     ~ In EvMutexInit (events a t (call_prog c) s) /\
     forall x, ~ In (EvStore criticalSectionInitialized x) (events a t (call_prog c) s)) /\
  (forall cs, falls (history a cs initial) = 0%nat /\
              (rises (history a cs initial) <= 1)%nat) /\
  (forall t cs, rises (history a ((t, Disable) :: cs) initial) = 1%nat).
Proof.
  split; [ | split; [ | split; [ | split ] ] ].
  - intros t s Hr; apply reachable_machine_state in Hr.
    destruct Hr as [n | n | t0 n].
    + exists (Locked t n); split; reflexivity.
    + exists (Locked t n); split; reflexivity.
    + exists (Locked t0 n); split; reflexivity.
  - intros t c s s'; apply call_keeps_initialized.
  - intros t c s Hi; split; [ | intros x ]; intros Hin;
      destruct (call_no_reinit a t c s _ Hi Hin) as [H1 H2].
    + now apply H1.
    + now apply (H2 x).
  - intros cs.
    destruct (history_monotone a cs initial (ms_uninitialized 0)) as (Hf & Hle & _).
    split; assumption.
  - intros t cs.
    change (history a ((t, Disable) :: cs) initial)
      with (initial :: history a cs (Locked t 0)).
    destruct (history_head a cs (Locked t 0)) as [l Hl].
    destruct (history_monotone a cs (Locked t 0) (ms_locked t 0)) as (_ & _ & Hz).
    rewrite Hl in *. rewrite rises_cons, (Hz eq_refl). reflexivity.
Qed.

Lemma initialized_flag_monotone_witness :
  initializedFlag (Locked 1 0) = TBX_TRUE /\
  run true 1%nat (call_prog (Restore 0)) (Locked 1 0) = Returned tt (Unlocked 0) /\
  initializedFlag (Unlocked 0) = TBX_TRUE.
Proof.
  split; [ reflexivity | split; [ reflexivity | ] ].
  apply (proj1 (proj2 (initialized_flag_monotone true))
           1%nat (Restore 0) (Locked 1 0) (Unlocked 0)); reflexivity.
Defined.




(** C8. [TbxPortInterruptsRestore] ignores its token: for every state and
    every two tokens, the two calls are the same program, so they end in
    the same outcome, perform the same operations through the same
    intermediate states, and take the same step in any interleaving. *)
Theorem restore_ignores_token (a : bool) (t : tid) (s : state) (sr1 sr2 : tTbxPortCpuSR) :
  TbxPortInterruptsRestore sr1 = TbxPortInterruptsRestore sr2 /\
  run a t (TbxPortInterruptsRestore sr1) s = run a t (TbxPortInterruptsRestore sr2) s /\
  log a t (TbxPortInterruptsRestore sr1) s = log a t (TbxPortInterruptsRestore sr2) s /\
  step a t (TbxPortInterruptsRestore sr1) s = step a t (TbxPortInterruptsRestore sr2) s.
Proof. repeat split. Qed.






(** C1 on the code.  [interruptsDisabled] is one flag for the whole
    process: a thread that calls [TbxPortInterruptsDisable] while another
    thread holds the critical section reads [TBX_TRUE] and returns without
    [pthread_mutex_lock].  With two workers of one increment each, in a
    build with or without assertions, one schedule puts both threads
    inside their protected regions at once, and one schedule runs both
    workers to their end with the counter at 1 instead of 2; so the
    mutual-exclusion property does not hold of the code. *)
Theorem two_workers_overlap (a : bool) :
  (exists c,
     exec a overlap_schedule (start [worker 1; worker 1]) = Some c /\
     inside_count c = 2%nat /\
     mtxCritSect (shared c) = MtxHeld 0%nat) /\
  (exists c,
     exec a lost_update_schedule (start [worker 1; worker 1]) = Some c /\
     all_returned c = true /\
     counter (shared c) = 1) /\
  ~ mutual_exclusion a.
Proof.
  assert (Hover : exists c,
     exec a overlap_schedule (start [worker 1; worker 1]) = Some c /\
     inside_count c = 2%nat /\
     mtxCritSect (shared c) = MtxHeld 0%nat).
  { destruct a.
    - destruct (exec true overlap_schedule (start [worker 1; worker 1])) as [c | ] eqn:E;
        [ | vm_compute in E; discriminate E ].
      exists c. split; [ reflexivity | ].
      vm_compute in E. inversion E. split; reflexivity.
    - destruct (exec false overlap_schedule (start [worker 1; worker 1])) as [c | ] eqn:E;
        [ | vm_compute in E; discriminate E ].
      exists c. split; [ reflexivity | ].
      vm_compute in E. inversion E. split; reflexivity. }
  split; [ exact Hover | split ].
  - destruct a.
    + destruct (exec true lost_update_schedule (start [worker 1; worker 1])) as [c | ] eqn:E;
        [ | vm_compute in E; discriminate E ].
      exists c. split; [ reflexivity | ].
      vm_compute in E. inversion E. split; reflexivity.
    + destruct (exec false lost_update_schedule (start [worker 1; worker 1])) as [c | ] eqn:E;
        [ | vm_compute in E; discriminate E ].
      exists c. split; [ reflexivity | ].
      vm_compute in E. inversion E. split; reflexivity.
  - intros H.
    destruct Hover as (c & Hc & Hin & _).
    destruct (H 2%nat 1%nat overlap_schedule c Hc) as [Hle _].
    rewrite Hin in Hle. lia.
Qed.

(** X10. The same flag, seen from the invariant of the state machine: when the
    calls of two threads overlap, both workers can return, with the right
    counter, and leave the mutex locked with [interruptsDisabled] at
    [TBX_FALSE]; the next [TbxPortInterruptsDisable] of any thread then
    waits for ever.  The invariant of the state machine is one of calls
    that do not overlap. *)
Lemma overlapping_calls_leak_lock (a : bool) (t : tid) :
  exists c,
    exec a leaked_lock_schedule (start [worker 1; worker 1]) = Some c /\
    all_returned c = true /\
    counter (shared c) = 2 /\
    heldFlag (shared c) = TBX_FALSE /\
    mtxCritSect (shared c) = MtxHeld 1%nat /\
    run a t TbxPortInterruptsDisable (shared c) = Blocked (store interruptsDisabled TBX_TRUE (shared c)).
Proof.
  destruct a.
  - destruct (exec true leaked_lock_schedule (start [worker 1; worker 1])) as [c | ] eqn:E;
      [ | vm_compute in E; discriminate E ].
    exists c. split; [ reflexivity | ].
    vm_compute in E. inversion E. repeat split.
  - destruct (exec false leaked_lock_schedule (start [worker 1; worker 1])) as [c | ] eqn:E;
      [ | vm_compute in E; discriminate E ].
    exists c. split; [ reflexivity | ].
    vm_compute in E. inversion E. repeat split.
Qed.

(** ** Further properties of the two functions *)

(** The log of a sequence is the log of its first part followed by the log
    of what runs after the first part has returned. *)
Lemma log_bind (a : bool) {A B : Type} (t : tid) (p : prog A) (f : A -> prog B) (s : state) :
  log a t (x <- p ;; f x) s =
  log a t p s ++
  match run a t p s with
  | Returned x s' => log a t (f x) s'
  | _ => []
  end.
Proof.
  revert s; induction p; intros s; cbn [bind log run step].
  - reflexivity.
  - cbn. f_equal. apply H.
  - cbn. f_equal. apply IHp.
  - destruct (mutex_init s); cbn; [ f_equal; apply IHp | reflexivity ].
  - destruct (mutex_lock t s); cbn; [ f_equal; apply IHp | reflexivity | reflexivity ].
  - destruct (mutex_unlock t s); cbn; [ f_equal; apply IHp | reflexivity ].
  - destruct (assertion a cond expected s); cbn; [ f_equal; apply IHp | reflexivity ].
  - cbn. f_equal. apply IHp.
Qed.

Lemma events_bind (a : bool) {A B : Type} (t : tid) (p : prog A) (f : A -> prog B) (s : state) :
  events a t (x <- p ;; f x) s =
  events a t p s ++
  match run a t p s with
  | Returned x s' => events a t (f x) s'
  | _ => []
  end.
Proof.
  unfold events. rewrite log_bind, map_app.
  destruct (run a t p s); reflexivity.
Qed.

Lemma count_app (f : event -> bool) (l1 l2 : list event) :
  count f (l1 ++ l2) = (count f l1 + count f l2)%nat.
Proof. unfold count. now rewrite filter_app, length_app. Qed.

(** The two transitions of a caller that owns the lock when it is held,
    from an initialised state. *)
Lemma own_disable (a : bool) (t : tid) (s : state) :
  machine_state s -> held_by_caller t s = true ->
  run a t (call_prog Disable) s = Returned tt (Locked t (counter s)).
Proof.
  intros Hs Hc. destruct Hs as [n | n | t0 n]; try reflexivity.
  apply held_by_caller_Locked in Hc; subst t0. reflexivity.
Qed.

Lemma own_restore (a : bool) (t : tid) (sr : tTbxPortCpuSR) (s : state) :
  machine_state s -> held_by_caller t s = true -> initializedFlag s = TBX_TRUE ->
  run a t (call_prog (Restore sr)) s = Returned tt (Unlocked (counter s)).
Proof.
  intros Hs Hc Hi. destruct Hs as [n | n | t0 n].
  - discriminate Hi.
  - apply restore_Unlocked.
  - apply held_by_caller_Locked in Hc; subst t0. apply restore_Locked.
Qed.

(** An initialised machine state whose lock is the caller's if anyone's. *)
Lemma own_states (t : tid) (s : state) :
  machine_state s -> held_by_caller t s = true -> initializedFlag s = TBX_TRUE ->
  s = Unlocked (counter s) \/ s = Locked t (counter s).
Proof.
  intros Hs Hc Hi. destruct Hs as [n | n | t0 n].
  - discriminate Hi.
  - now left.
  - apply held_by_caller_Locked in Hc; subst t0. now right.
Qed.

Lemma own_call_returns (a : bool) (t : tid) (c : call) (s : state) :
  machine_state s -> held_by_caller t s = true -> initializedFlag s = TBX_TRUE ->
  exists s',
    run a t (call_prog c) s = Returned tt s' /\
    machine_state s' /\ held_by_caller t s' = true /\
    initializedFlag s' = TBX_TRUE /\ counter s' = counter s.
Proof.
  intros Hs Hc Hi. destruct c as [ | sr].
  - exists (Locked t (counter s)). split; [ now apply own_disable | ].
    repeat split; [ apply ms_locked | apply Nat.eqb_refl ].
  - exists (Unlocked (counter s)). split; [ now apply own_restore | ].
    repeat split. apply ms_unlocked.
Qed.

Lemma own_sequence (a : bool) (t : tid) (cs : list call) :
  forall s,
    machine_state s -> held_by_caller t s = true -> initializedFlag s = TBX_TRUE ->
    exists s',
      run a t (sequence cs) s = Returned tt s' /\
      machine_state s' /\ held_by_caller t s' = true /\
      initializedFlag s' = TBX_TRUE /\ counter s' = counter s.
Proof.
  induction cs as [ | c cs IH]; intros s Hs Hc Hi.
  - exists s. repeat split; assumption.
  - destruct (own_call_returns a t c s Hs Hc Hi) as (s1 & Hrun & Hs1 & Hc1 & Hi1 & Hn1).
    destruct (IH s1 Hs1 Hc1 Hi1) as (s' & Hrun' & Hs' & Hc' & Hi' & Hn').
    exists s'. cbn [sequence]. rewrite run_bind, Hrun, Hrun'.
    repeat split; try assumption. congruence.
Qed.

(** X1. No nesting depth is kept.  From a reachable, initialised state in
    which the lock is not held by another thread, whatever calls a thread
    makes, the state it ends in is decided by its last call alone: locked
    by the caller after [TbxPortInterruptsDisable], unlocked after
    [TbxPortInterruptsRestore].  In particular the first restore after
    nested disables frees the mutex. *)
Theorem last_call_decides (a : bool) (t : tid) (cs : list call) (s : state) :
  reachable a s ->
  held_by_caller t s = true ->
  initializedFlag s = TBX_TRUE ->
  run a t (sequence (cs ++ [Disable])) s = Returned tt (Locked t (counter s)) /\
  (forall sr,
     run a t (sequence (cs ++ [Restore sr])) s = Returned tt (Unlocked (counter s))).
Proof.
  intros Hr Hc Hi. apply reachable_machine_state in Hr.
  assert (H : forall c, exists s1,
             run a t (sequence (cs ++ [c])) s = run a t (call_prog c) s1 /\
             machine_state s1 /\ held_by_caller t s1 = true /\
             initializedFlag s1 = TBX_TRUE /\ counter s1 = counter s).
  { intros c. revert s Hr Hc Hi.
    induction cs as [ | c0 cs IH]; intros s Hr Hc Hi.
    - exists s. cbn [app sequence]. rewrite run_bind.
      destruct (own_call_returns a t c s Hr Hc Hi) as (s' & -> & _).
      repeat split; assumption.
    - destruct (own_call_returns a t c0 s Hr Hc Hi) as (s1 & Hrun & Hs1 & Hc1 & Hi1 & Hn1).
      destruct (IH s1 Hs1 Hc1 Hi1) as (s2 & Hrun2 & Hs2 & Hc2 & Hi2 & Hn2).
      exists s2. cbn [app sequence]. rewrite run_bind, Hrun, Hrun2.
      repeat split; try assumption. congruence. }
  split; [ | intros sr ].
  - destruct (H Disable) as (s1 & -> & Hs1 & Hc1 & Hi1 & <-).
    now apply own_disable.
  - destruct (H (Restore sr)) as (s1 & -> & Hs1 & Hc1 & Hi1 & <-).
    now apply own_restore.
Qed.

Lemma last_call_decides_witness :
  reachable true (Unlocked 0) /\
  held_by_caller 0%nat (Unlocked 0) = true /\
  initializedFlag (Unlocked 0) = TBX_TRUE /\
  run true 0%nat (sequence ([Disable; Disable] ++ [Restore 0])) (Unlocked 0)
    = Returned tt (Unlocked 0).
Proof.
  assert (Hr : reachable true (Unlocked 0)).
  { apply (reach_call true 0%nat (Restore 0) (Locked 0 0)); [ | reflexivity ].
    apply (reach_call true 0%nat Disable initial); [ apply reach_initial | reflexivity ]. }
  split; [ exact Hr | split; [ reflexivity | split; [ reflexivity | ] ] ].
  apply (proj2 (last_call_decides true 0%nat [Disable; Disable] (Unlocked 0)
                  Hr eq_refl eq_refl) 0).
Defined.

(** X2. One thread alone never waits on the mutex and never calls it
    outside its contract, whatever the order of its calls from program
    start.  When the first call is a disable, every sequence of calls
    returns, in the locked or the unlocked state.  The only call that
    stops is a restore that comes before any disable, in a build that
    keeps assertions; a build without assertions returns from every
    sequence. *)
Theorem single_thread_outcomes (a : bool) (t : tid) (cs : list call) :
  (exists s',
     run a t (sequence (Disable :: cs)) initial = Returned tt s' /\
     (s' = Locked t 0 \/ s' = Unlocked 0)) /\
  (forall sr,
     run true t (sequence (Restore sr :: cs)) initial = AssertFailed initial) /\
  (exists s',
     run false t (sequence cs) initial = Returned tt s' /\ machine_state s').
Proof.
  split; [ | split ].
  - cbn [sequence]. rewrite run_bind.
    change (run a t (call_prog Disable) initial) with (@Returned unit tt (Locked t 0)).
    destruct (own_sequence a t cs (Locked t 0) (ms_locked t 0) (Nat.eqb_refl t) eq_refl)
      as (s' & Hrun & Hs' & Hc' & Hi' & Hn').
    exists s'. split; [ exact Hrun | ].
    destruct (own_states t s' Hs' Hc' Hi') as [E | E]; rewrite Hn' in E; cbn in E; auto.
  - intros sr. cbn [sequence]. rewrite run_bind. reflexivity.
  - induction cs as [ | c cs IH].
    + exists initial. split; [ reflexivity | apply (ms_uninitialized 0) ].
    + cbn [sequence]. rewrite run_bind. destruct c as [ | sr].
      * change (run false t (call_prog Disable) initial) with (@Returned unit tt (Locked t 0)).
        destruct (own_sequence false t cs (Locked t 0) (ms_locked t 0) (Nat.eqb_refl t) eq_refl)
          as (s' & Hrun & Hs' & _).
        exists s'. split; assumption.
      * change (run false t (call_prog (Restore sr)) initial) with (@Returned unit tt initial).
        exact IH.
Qed.

Lemma own_call_balance (a : bool) (t : tid) (c : call) (s : state) :
  machine_state s -> held_by_caller t s = true -> initializedFlag s = TBX_TRUE ->
  exists s',
    run a t (call_prog c) s = Returned tt s' /\
    (count is_lock (events a t (call_prog c) s) + held_count s
     = count is_unlock (events a t (call_prog c) s) + held_count s')%nat /\
    count is_init (events a t (call_prog c) s) = 0%nat.
Proof.
  intros Hs Hc Hi.
  destruct (own_states t s Hs Hc Hi) as [E | E]; rewrite E; clear;
    destruct c as [ | sr]; destruct a; cbn; rewrite ?Nat.eqb_refl; cbn;
    eexists; repeat split.
Qed.

Lemma own_sequence_balance (a : bool) (t : tid) (cs : list call) :
  forall s,
    machine_state s -> held_by_caller t s = true -> initializedFlag s = TBX_TRUE ->
    exists s',
      run a t (sequence cs) s = Returned tt s' /\
      (count is_lock (events a t (sequence cs) s) + held_count s
       = count is_unlock (events a t (sequence cs) s) + held_count s')%nat /\
      count is_init (events a t (sequence cs) s) = 0%nat.
Proof.
  induction cs as [ | c cs IH]; intros s Hs Hc Hi.
  - exists s. repeat split.
  - destruct (own_call_returns a t c s Hs Hc Hi) as (s1 & Hrun & Hs1 & Hc1 & Hi1 & _).
    destruct (own_call_balance a t c s Hs Hc Hi) as (s1' & Hrun1 & Hb1 & Hz1).
    rewrite Hrun in Hrun1; inversion Hrun1; subst s1'; clear Hrun1.
    destruct (IH s1 Hs1 Hc1 Hi1) as (s' & Hrun' & Hb' & Hz').
    exists s'. cbn [sequence].
    rewrite run_bind, events_bind, Hrun, !count_app.
    repeat split; [ exact Hrun' | lia | lia ].
Qed.

(** X3. The mutex calls of one thread balance.  Over any sequence of calls
    that a thread makes from program start and that returns, the number of
    [pthread_mutex_lock] calls is the number of [pthread_mutex_unlock]
    calls, plus one when the sequence ends with the mutex held; and
    [pthread_mutex_init] is called once when the sequence ends initialised,
    not at all otherwise. *)
Theorem mutex_calls_balance (a : bool) (t : tid) (cs : list call) (s' : state) :
  run a t (sequence cs) initial = Returned tt s' ->
  count is_lock (events a t (sequence cs) initial)
    = (count is_unlock (events a t (sequence cs) initial) + held_count s')%nat /\
  count is_init (events a t (sequence cs) initial)
    = (if initializedFlag s' =? TBX_TRUE then 1%nat else 0%nat).
Proof.
  revert s'. induction cs as [ | c cs IH]; intros s' Hrun.
  - cbn in Hrun. inversion Hrun. split; reflexivity.
  - cbn [sequence] in *. rewrite run_bind in Hrun. rewrite events_bind.
    destruct c as [ | sr].
    + change (run a t (call_prog Disable) initial)
        with (@Returned unit tt (Locked t 0)) in *.
      destruct (own_sequence_balance a t cs (Locked t 0)
                  (ms_locked t 0) (Nat.eqb_refl t) eq_refl) as (s1 & Hrun1 & Hb & Hz).
      destruct (own_sequence a t cs (Locked t 0)
                  (ms_locked t 0) (Nat.eqb_refl t) eq_refl) as (s2 & Hrun2 & _ & _ & Hi2 & _).
      rewrite Hrun in Hrun1, Hrun2.
      inversion Hrun1; subst s1. inversion Hrun2; subst s2.
      rewrite !count_app, Hz, Hi2.
      change (held_count (Locked t 0)) with 1%nat in Hb.
      change (count is_lock (events a t (call_prog Disable) initial)) with 1%nat.
      change (count is_unlock (events a t (call_prog Disable) initial)) with 0%nat.
      change (count is_init (events a t (call_prog Disable) initial)) with 1%nat.
      split; [ lia | reflexivity ].
    + destruct a.
      * discriminate Hrun.
      * change (run false t (call_prog (Restore sr)) initial)
          with (@Returned unit tt initial) in *.
        rewrite !count_app.
        change (count is_lock (events false t (call_prog (Restore sr)) initial)) with 0%nat.
        change (count is_unlock (events false t (call_prog (Restore sr)) initial)) with 0%nat.
        change (count is_init (events false t (call_prog (Restore sr)) initial)) with 0%nat.
        apply IH. exact Hrun.
Qed.

Lemma mutex_calls_balance_witness :
  run true 0%nat (sequence [Disable; Disable; Restore 0; Disable]) initial
    = Returned tt (Locked 0 0) /\
  count is_lock (events true 0%nat (sequence [Disable; Disable; Restore 0; Disable]) initial)
    = 2%nat /\
  count is_init (events true 0%nat (sequence [Disable; Disable; Restore 0; Disable]) initial)
    = 1%nat.
Proof.
  split; [ reflexivity | ].
  apply (mutex_calls_balance true 0%nat [Disable; Disable; Restore 0; Disable]
           (Locked 0 0) eq_refl).
Defined.

(** X4. Step order within restore.  In a reachable state whose
    [interruptsDisabled] flag is [TBX_TRUE] and whose lock is the caller's,
    [TbxPortInterruptsRestore] ends with [pthread_mutex_unlock] followed by
    the store of [TBX_FALSE] to [interruptsDisabled]: nothing changes the
    state before the unlock, between the unlock and the store the flag is
    still [TBX_TRUE] while the mutex is already free, and the call returns
    in the unlocked state. *)
Theorem restore_unlocks_then_clears (a : bool) (t : tid) (sr : tTbxPortCpuSR) (s : state) :
  reachable a s ->
  heldFlag s = TBX_TRUE ->
  held_by_caller t s = true ->
  exists pre s1 s2,
    log a t (TbxPortInterruptsRestore sr) s =
      pre ++ [(EvMutexUnlock, s1); (EvStore interruptsDisabled TBX_FALSE, s2)] /\
    Forall (fun es => snd es = s) pre /\
    heldFlag s1 = TBX_TRUE /\ mtxCritSect s1 = MtxFree /\
    s2 = Unlocked (counter s) /\
    run a t (TbxPortInterruptsRestore sr) s = Returned tt s2.
Proof.
  intros Hr Hh Hc; apply reachable_machine_state in Hr.
  destruct Hr as [n | n | t0 n]; [ discriminate Hh | discriminate Hh | ].
  apply held_by_caller_Locked in Hc; subst t0.
  destruct a; eexists [_; _], _, _; cbn; rewrite Nat.eqb_refl; cbn;
    (split; [ reflexivity | split; [ repeat constructor | repeat split ] ]).
Qed.

Lemma restore_unlocks_then_clears_witness :
  reachable true (Locked 0 0) /\
  heldFlag (Locked 0 0) = TBX_TRUE /\
  held_by_caller 0%nat (Locked 0 0) = true /\
  exists pre s1 s2,
    log true 0%nat (TbxPortInterruptsRestore 0) (Locked 0 0) =
      pre ++ [(EvMutexUnlock, s1); (EvStore interruptsDisabled TBX_FALSE, s2)] /\
    Forall (fun es => snd es = Locked 0 0) pre /\
    heldFlag s1 = TBX_TRUE /\ mtxCritSect s1 = MtxFree /\
    s2 = Unlocked (counter (Locked 0 0)) /\
    run true 0%nat (TbxPortInterruptsRestore 0) (Locked 0 0) = Returned tt s2.
Proof.
  assert (Hr : reachable true (Locked 0 0)).
  { apply (reach_call true 0%nat Disable initial); [ apply reach_initial | reflexivity ]. }
  split; [ exact Hr | split; [ reflexivity | split; [ reflexivity | ] ] ].
  apply (restore_unlocks_then_clears true 0%nat 0 (Locked 0 0) Hr eq_refl eq_refl).
Defined.

(** X5. What the two functions never do, in any state at all, whatever
    the values of the two flags and of the mutex.
    [TbxPortInterruptsRestore] never waits, never calls
    [pthread_mutex_lock] or [pthread_mutex_init], stores nothing but
    [TBX_FALSE] to [interruptsDisabled] and nothing to
    [criticalSectionInitialized].  [TbxPortInterruptsDisable] never fails
    an assertion, never calls [pthread_mutex_unlock], stores nothing but
    [TBX_TRUE] to the two flags, and returns nothing but 0. *)
Theorem never_in_any_state (a : bool) (t : tid) (s : state) :
  (forall sr,
     (forall s', run a t (TbxPortInterruptsRestore sr) s <> Blocked s') /\
     (forall e, In e (events a t (TbxPortInterruptsRestore sr) s) ->
        e <> EvMutexLock /\ e <> EvMutexInit /\
        (forall x, e <> EvStore criticalSectionInitialized x) /\
        (forall x, e = EvStore interruptsDisabled x -> x = TBX_FALSE))) /\
  (forall s', run a t TbxPortInterruptsDisable s <> AssertFailed s') /\
  (forall r s', run a t TbxPortInterruptsDisable s = Returned r s' -> r = 0) /\
  (forall e, In e (events a t TbxPortInterruptsDisable s) ->
     e <> EvMutexUnlock /\
     (forall v x, e = EvStore v x -> x = TBX_TRUE)).
Proof.
  destruct s as [i h m n].
  split; [ intros sr; split | split; [ | split ] ].
  - intros s'. destruct a; cbn.
    + destruct (i =? TBX_TRUE); cbn; [ | discriminate ].
      destruct (h =? TBX_TRUE); cbn; [ | discriminate ].
      destruct m as [ | | o]; cbn; try discriminate.
      destruct (Nat.eqb o t); cbn; discriminate.
    + destruct (h =? TBX_TRUE); cbn; [ | discriminate ].
      destruct m as [ | | o]; cbn; try discriminate.
      destruct (Nat.eqb o t); cbn; discriminate.
  - intros e. destruct a; cbn.
    + destruct (i =? TBX_TRUE); cbn; [ | intros [] ].
      destruct (h =? TBX_TRUE); cbn;
        [ destruct m as [ | | o]; cbn; try destruct (Nat.eqb o t); cbn | ];
        intros H;
        repeat (destruct H as [H | H];
                [ subst e; repeat split; try discriminate;
                  intros x E; inversion E; reflexivity | ]);
        destruct H.
    + destruct (h =? TBX_TRUE); cbn;
        [ destruct m as [ | | o]; cbn; try destruct (Nat.eqb o t); cbn | ];
        intros H;
        repeat (destruct H as [H | H];
                [ subst e; repeat split; try discriminate;
                  intros x E; inversion E; reflexivity | ]);
        destruct H.
  - intros s'. cbn.
    destruct (i =? TBX_FALSE); cbn;
      [ destruct m; cbn; try discriminate | ];
      destruct (h =? TBX_FALSE); cbn; try discriminate;
      destruct m; cbn; discriminate.
  - intros r s'. cbn.
    destruct (i =? TBX_FALSE); cbn;
      [ destruct m; cbn; try discriminate | ];
      destruct (h =? TBX_FALSE); cbn; try discriminate;
      try (destruct m; cbn; try discriminate);
      intros E; inversion E; reflexivity.
  - intros e. cbn.
    destruct (i =? TBX_FALSE); cbn;
      [ destruct m; cbn | ];
      destruct (h =? TBX_FALSE); cbn;
      try (destruct m; cbn);
      intros H;
      repeat (destruct H as [H | H];
              [ subst e; split; [ discriminate | intros v x E; inversion E; reflexivity ] | ]);
      destruct H.
Qed.

Lemma never_in_any_state_witness :
  In (EvStore interruptsDisabled TBX_TRUE) (events true 0%nat TbxPortInterruptsDisable initial) /\
  EvStore interruptsDisabled TBX_TRUE <> EvMutexUnlock /\
  (forall v x, EvStore interruptsDisabled TBX_TRUE = EvStore v x -> x = TBX_TRUE).
Proof.
  assert (Hin : In (EvStore interruptsDisabled TBX_TRUE)
                  (events true 0%nat TbxPortInterruptsDisable initial))
    by (cbn; auto 10).
  split; [ exact Hin | ].
  apply (proj2 (proj2 (proj2 (never_in_any_state true 0%nat initial))) _ Hin).
Defined.



(** One guarded increment, from a state where the lock is not held by
    another thread. *)
Lemma worker_iteration (a : bool) (t : tid) (k : nat) (s : state) :
  machine_state s -> held_by_caller t s = true ->
  run a t (worker (S k)) s = run a t (worker k) (Unlocked (counter s + 1)).
Proof.
  intros Hs Hc. destruct Hs as [n | n | t0 n];
    [ | | apply held_by_caller_Locked in Hc; subst t0 ];
    destruct a; cbn; rewrite Nat.eqb_refl; reflexivity.
Qed.

Lemma worker_run (a : bool) (t : tid) (k : nat) :
  forall s, machine_state s -> held_by_caller t s = true ->
    run a t (worker k) s =
    Returned tt (match k with
                 | O => s
                 | S _ => Unlocked (counter s + Z.of_nat k)
                 end).
Proof.
  induction k as [ | k IH]; intros s Hs Hc.
  - reflexivity.
  - rewrite (worker_iteration a t k s Hs Hc).
    rewrite (IH (Unlocked (counter s + 1)) (ms_unlocked _) eq_refl).
    destruct k as [ | k']; cbn [counter Unlocked]; do 2 f_equal; lia.
Qed.

(** X7. One thread alone counts right.  From every reachable state in
    which the lock is not held by another thread, a thread that makes [n]
    guarded increments (disable, load and store of the counter, restore)
    returns with the counter raised by [n]; when [n] is not 0 it ends in
    the unlocked state. *)
Theorem single_worker_counts (a : bool) (t : tid) (n : nat) (s : state) :
  reachable a s ->
  held_by_caller t s = true ->
  exists s',
    run a t (worker n) s = Returned tt s' /\
    counter s' = counter s + Z.of_nat n /\
    (n <> 0%nat -> s' = Unlocked (counter s + Z.of_nat n)).
Proof.
  intros Hr Hc; apply reachable_machine_state in Hr.
  rewrite (worker_run a t n s Hr Hc).
  destruct n as [ | n'].
  - exists s. repeat split; [ cbn; lia | congruence ].
  - eexists. repeat split.
Qed.

Lemma single_worker_counts_witness :
  reachable true initial /\
  held_by_caller 0%nat initial = true /\
  exists s',
    run true 0%nat (worker 3) initial = Returned tt s' /\
    counter s' = counter initial + Z.of_nat 3 /\
    (3%nat <> 0%nat -> s' = Unlocked (counter initial + Z.of_nat 3)).
Proof.
  split; [ apply reach_initial | split; [ reflexivity | ] ].
  apply (single_worker_counts true 0%nat 3 initial (reach_initial true) eq_refl).
Defined.

(** *** Threads that do not overlap *)

Lemma exec_app (a : bool) (l1 l2 : list tid) (c : config) :
  exec a (l1 ++ l2) c =
  match exec a l1 c with
  | Some c' => exec a l2 c'
  | None => None
  end.
Proof.
  revert c; induction l1 as [ | i l1 IH]; intros c; cbn.
  - reflexivity.
  - destruct (thread_step a i c); [ apply IH | reflexivity ].
Qed.

Lemma nth_error_middle {X : Type} (l1 l2 : list X) (y : X) :
  nth_error (l1 ++ y :: l2) (length l1) = Some y.
Proof. induction l1; cbn; auto. Qed.

Lemma replace_middle {X : Type} (l1 l2 : list X) (x y : X) :
  replace (length l1) x (l1 ++ y :: l2) = l1 ++ x :: l2.
Proof. induction l1; cbn; [ reflexivity | now f_equal ]. Qed.

(** A thread that is given as many turns as it has operations to perform
    runs to its end, as [run] says, and the other threads stay as they
    are. *)
Lemma exec_solo (a : bool) (done rest : list thread) (p : prog unit) :
  forall (b : bool) (s s' : state),
    run a (length done) p s = Returned tt s' ->
    exists b',
      exec a (repeat (length done : tid) (length (log a (length done) p s)))
        (mkConfig s (done ++ mkThread p b :: rest))
      = Some (mkConfig s' (done ++ mkThread (Ret tt) b' :: rest)).
Proof.
  induction p as [ [] | v k IH | v x k IH | k IH | k IH | k IH | v x k IH | r k IH ];
    intros b s s' Hrun; cbn [run] in Hrun.
  - inversion Hrun. exists b. reflexivity.
  - destruct (IH (load v s) b s s' Hrun) as [b' E]. exists b'.
    cbn [log step length repeat exec].
    unfold thread_step. cbn [threads shared]. rewrite nth_error_middle.
    cbn [code step inside]. rewrite replace_middle. exact E.
  - destruct (IH b (store v x s) s' Hrun) as [b' E]. exists b'.
    cbn [log step length repeat exec].
    unfold thread_step. cbn [threads shared]. rewrite nth_error_middle.
    cbn [code step inside]. rewrite replace_middle. exact E.
  - destruct (mutex_init s) as [s1 | ] eqn:Hm; [ | discriminate Hrun ].
    destruct (IH b s1 s' Hrun) as [b' E]. exists b'.
    cbn [log step]. rewrite Hm. cbn [length repeat exec].
    unfold thread_step. cbn [threads shared]. rewrite nth_error_middle.
    cbn [code step inside]. rewrite Hm, replace_middle. exact E.
  - destruct (mutex_lock (length done) s) as [s1 | | ] eqn:Hm; try discriminate Hrun.
    destruct (IH b s1 s' Hrun) as [b' E]. exists b'.
    cbn [log step]. rewrite Hm. cbn [length repeat exec].
    unfold thread_step. cbn [threads shared]. rewrite nth_error_middle.
    cbn [code step inside]. rewrite Hm, replace_middle. exact E.
  - destruct (mutex_unlock (length done) s) as [s1 | ] eqn:Hm; [ | discriminate Hrun ].
    destruct (IH b s1 s' Hrun) as [b' E]. exists b'.
    cbn [log step]. rewrite Hm. cbn [length repeat exec].
    unfold thread_step. cbn [threads shared]. rewrite nth_error_middle.
    cbn [code step inside]. rewrite Hm, replace_middle. exact E.
  - destruct (assertion a v x s) as [e | ] eqn:Hm; [ | discriminate Hrun ].
    destruct (IH (match e with EvRegion r => r | _ => b end) s s' Hrun) as [b' E].
    exists b'.
    cbn [log step]. rewrite Hm. cbn [length repeat exec].
    unfold thread_step. cbn [threads shared]. rewrite nth_error_middle.
    cbn [code step inside]. rewrite Hm, replace_middle. exact E.
  - destruct (IH r s s' Hrun) as [b' E]. exists b'.
    cbn [log step length repeat exec].
    unfold thread_step. cbn [threads shared]. rewrite nth_error_middle.
    cbn [code step inside]. rewrite replace_middle. exact E.
Qed.

Lemma exec_serial (a : bool) (todo : list (prog unit)) :
  forall (done : list thread) (s s' : state),
    forallb returned done = true ->
    serial a (length done) todo s = Returned tt s' ->
    exists done',
      exec a (serial_schedule a (length done) todo s)
        (mkConfig s (done ++ map (fun p => mkThread p false) todo))
      = Some (mkConfig s' done') /\
      forallb returned done' = true.
Proof.
  induction todo as [ | p todo IH]; intros done s s' Hd Hs.
  - cbn in Hs. inversion Hs; subst s'.
    exists done. cbn. rewrite app_nil_r. split; [ reflexivity | exact Hd ].
  - cbn [serial] in Hs. cbn [serial_schedule map].
    destruct (run a (length done) p s) as [[] s1 | | | ] eqn:Hrun; try discriminate Hs.
    destruct (exec_solo a done (map (fun p => mkThread p false) todo) p false s s1 Hrun)
      as [b' E].
    assert (Hlen : length (done ++ [mkThread (Ret tt) b']) = S (length done))
      by (rewrite length_app; cbn; lia).
    destruct (IH (done ++ [mkThread (Ret tt) b']) s1 s') as (done' & E' & Hd').
    + rewrite forallb_app, Hd. reflexivity.
    + rewrite Hlen. exact Hs.
    + rewrite Hlen, <- app_assoc in E'. cbn [app] in E'.
      exists done'. rewrite exec_app.
      rewrite E. split; assumption.
Qed.

Lemma not_acquired_held_by_caller (t : tid) (s : state) :
  lock_acquired s = false -> held_by_caller t s = true.
Proof. unfold lock_acquired, held_by_caller. destruct (mtxCritSect s); congruence. Qed.

Lemma serial_workers (a : bool) (n m : nat) :
  forall (i : tid) (s : state),
    machine_state s -> lock_acquired s = false ->
    exists s',
      serial a i (repeat (worker n) m) s = Returned tt s' /\
      lock_acquired s' = false /\
      counter s' = counter s + Z.of_nat n * Z.of_nat m.
Proof.
  induction m as [ | m IH]; intros i s Hs Hl.
  - exists s. repeat split; [ exact Hl | cbn; lia ].
  - cbn [repeat serial].
    rewrite (worker_run a i n s Hs (not_acquired_held_by_caller i s Hl)).
    destruct n as [ | n'].
    + destruct (IH (S i) s Hs Hl) as (s' & E & Hl' & Hn).
      exists s'. repeat split; [ exact E | exact Hl' | lia ].
    + destruct (IH (S i) (Unlocked (counter s + Z.of_nat (S n'))) (ms_unlocked _) eq_refl)
        as (s' & E & Hl' & Hn).
      cbn [counter Unlocked] in Hn.
      exists s'. repeat split; [ exact E | exact Hl' | lia ].
Qed.

(** X8. Workers that do not overlap count right.  When [m] threads of [n]
    guarded increments each run one after the other (each thread is given
    its turns only after the thread before it has returned), every thread
    returns, the counter ends at [n * m] and the mutex is not held,
    whatever [n] and [m]. *)
Theorem serial_workers_count (a : bool) (n m : nat) :
  exists c,
    exec a (serial_schedule a 0%nat (repeat (worker n) m) initial)
      (start (repeat (worker n) m)) = Some c /\
    all_returned c = true /\
    counter (shared c) = Z.of_nat n * Z.of_nat m /\
    lock_acquired (shared c) = false.
Proof.
  destruct (serial_workers a n m 0%nat initial (ms_uninitialized 0) eq_refl)
    as (s' & Hs & Hl & Hn).
  destruct (exec_serial a (repeat (worker n) m) [] initial s' eq_refl Hs)
    as (done' & E & Hd).
  exists (mkConfig s' done'). repeat split; assumption.
Qed.

(** X9. The first calls of two threads race on the initialisation.  The
    load of [criticalSectionInitialized] and the [pthread_mutex_init] that
    follows it are two operations: when both threads load the flag before
    either stores it, thread 0 can initialise the mutex, set both flags
    and lock the mutex, and the next operation of thread 1 is still its
    own [pthread_mutex_init], on a mutex that is initialised and held,
    which POSIX leaves undefined. *)
Theorem first_calls_race_on_init (a : bool) :
  exists c th k,
    exec a init_race_schedule (start [call_prog Disable; call_prog Disable]) = Some c /\
    shared c = Locked 0 0 /\
    nth_error (threads c) 1 = Some th /\
    code th = MutexInit k /\
    step a 1%nat (code th) (shared c) = Undef.
Proof.
  destruct a.
  - destruct (exec true init_race_schedule (start [call_prog Disable; call_prog Disable]))
      as [c | ] eqn:E; [ | vm_compute in E; discriminate E ].
    vm_compute in E. inversion E.
    eexists _, _, _. repeat split.
  - destruct (exec false init_race_schedule (start [call_prog Disable; call_prog Disable]))
      as [c | ] eqn:E; [ | vm_compute in E; discriminate E ].
    vm_compute in E. inversion E.
    eexists _, _, _. repeat split.
Qed.

(** ** The claims that overlapping calls break *)

(** C3 on the code.  A redundant restore is a no-op, but the pairs after
    it do not always function.  With the calls of two workers overlapping
    as in [leaked_lock_schedule], every call returns and the state left
    has [criticalSectionInitialized] at [TBX_TRUE] and
    [interruptsDisabled] at [TBX_FALSE], with the mutex still held.  There
    a restore of any thread returns and changes nothing, and the
    disable/restore pair after it never completes: its disable stores
    [TBX_TRUE] to the flag and waits in [pthread_mutex_lock]. *)
Theorem restore_noop_then_disable_waits (a : bool) (t : tid) (sr : tTbxPortCpuSR) :
  exists c,
    exec a leaked_lock_schedule (start [worker 1; worker 1]) = Some c /\
    all_returned c = true /\
    initializedFlag (shared c) = TBX_TRUE /\
    heldFlag (shared c) = TBX_FALSE /\
    run a t (TbxPortInterruptsRestore sr) (shared c) = Returned tt (shared c) /\
    run a t (TbxPortInterruptsRestore sr ;;
             sr' <- TbxPortInterruptsDisable ;;
             TbxPortInterruptsRestore sr') (shared c)
      = Blocked (store interruptsDisabled TBX_TRUE (shared c)).
Proof.
  destruct a.
  - destruct (exec true leaked_lock_schedule (start [worker 1; worker 1])) as [c | ] eqn:E;
      [ | vm_compute in E; discriminate E ].
    exists c. split; [ reflexivity | ].
    vm_compute in E. inversion E. repeat split.
  - destruct (exec false leaked_lock_schedule (start [worker 1; worker 1])) as [c | ] eqn:E;
      [ | vm_compute in E; discriminate E ].
    exists c. split; [ reflexivity | ].
    vm_compute in E. inversion E. repeat split.
Qed.

(** C5 on the code.  The invariant does not hold after every call.  With
    the calls of two workers overlapping as in [leaked_lock_schedule],
    both threads load [interruptsDisabled] as [TBX_FALSE] and go for the
    mutex; the restore of thread 0 writes [TBX_FALSE] to the flag before
    thread 1 gets the mutex, and the restore of thread 1 then skips the
    unlock.  Every call has returned, [interruptsDisabled] is [TBX_FALSE]
    and the mutex is acquired. *)
Theorem held_flag_invariant_fails_after_overlap (a : bool) :
  exists c,
    exec a leaked_lock_schedule (start [worker 1; worker 1]) = Some c /\
    all_returned c = true /\
    heldFlag (shared c) = TBX_FALSE /\
    lock_acquired (shared c) = true /\
    ~ (heldFlag (shared c) = TBX_TRUE <-> lock_acquired (shared c) = true).
Proof.
  destruct a.
  - destruct (exec true leaked_lock_schedule (start [worker 1; worker 1])) as [c | ] eqn:E;
      [ | vm_compute in E; discriminate E ].
    exists c. split; [ reflexivity | ].
    vm_compute in E. inversion E. repeat split.
    intros [_ H]. specialize (H eq_refl). discriminate H.
  - destruct (exec false leaked_lock_schedule (start [worker 1; worker 1])) as [c | ] eqn:E;
      [ | vm_compute in E; discriminate E ].
    exists c. split; [ reflexivity | ].
    vm_compute in E. inversion E. repeat split.
    intros [_ H]. specialize (H eq_refl). discriminate H.
Qed.

(** C6 on the code.  The flag does not keep the mutex from a second
    initialisation.  The load of [criticalSectionInitialized], the
    [pthread_mutex_init] and the store of the flag are three operations:
    with the first calls of two threads overlapping as in
    [init_race_schedule], thread 1 has loaded [TBX_FALSE], thread 0 has
    since initialised the mutex, set the flag to [TBX_TRUE] and locked the
    mutex, and the operation thread 1 performs next is
    [pthread_mutex_init], once more, on the initialised mutex while the
    flag is [TBX_TRUE]. *)
Theorem mutex_init_after_flag_set (a : bool) :
  exists c th k,
    exec a init_race_schedule (start [call_prog Disable; call_prog Disable]) = Some c /\
    initializedFlag (shared c) = TBX_TRUE /\
    mtxCritSect (shared c) = MtxHeld 0%nat /\
    nth_error (threads c) 1 = Some th /\
    code th = MutexInit k /\
    count is_init (events a 0%nat (call_prog Disable) initial) = 1%nat /\
    mutex_init (shared c) = None.
Proof.
  destruct a.
  - destruct (exec true init_race_schedule (start [call_prog Disable; call_prog Disable]))
      as [c | ] eqn:E; [ | vm_compute in E; discriminate E ].
    vm_compute in E. inversion E.
    eexists _, _, _. repeat split.
  - destruct (exec false init_race_schedule (start [call_prog Disable; call_prog Disable]))
      as [c | ] eqn:E; [ | vm_compute in E; discriminate E ].
    vm_compute in E. inversion E.
    eexists _, _, _. repeat split.
Qed.
